(** * Beam statics: reactions, shear force and bending moment

    A shallow embedding of [engineering_3.0.py]: the [DistributedLoad]
    class, the reaction computation of [main], the point query
    [calculate_internal_forces], the sampler [calculate_diagrams] and the
    extreme search of [plot_diagrams]; then the artists of [plot_beam] and
    the run of [main] on parsed input.

    Numbers.  The program computes with Python floats.  Here a number is a
    rational ([Q], compared with [==]) that stands for the float; rounding,
    infinities and NaN are outside the model.  The statements below are
    therefore about what does not depend on rounding: which branch is
    taken, which error is raised, which terms enter a sum and in which
    order, the lengths of the sequences, comparisons between results, and
    equalities between values obtained by the same operations in the same
    order.  No statement relies on an identity of exact arithmetic such as
    [(a / b) * b == a] or the associativity of a sum.

    External code.  [scipy.integrate.quad] and Python's [eval] are not part
    of the program; they are parameters of the development ([quad] and
    [py_eval] below).  [py_eval] is a total function: the load expressions
    are taken to evaluate without error, as the specification requires of
    an intensity function. *)

From Stdlib Require Import QArith Qabs Qfield Lqa Lia String.
From stdpp Require Import base list.

Local Open Scope Q_scope.

(** ** Exceptions and results *)

(** [ZeroDivisionError] is raised by float division, [ValueError] by
    [numpy.argmin] and [numpy.argmax] on an empty array.  The other four are
    the error kinds of the specification; no statement of the program raises
    them. *)
Inductive exn : Set :=
| ZeroDivisionError
| ValueError
| InvalidIntervalError
| DegenerateLoadError
| UnsolvableSystemError
| OutOfRangeError.

Inductive result (A : Type) : Type :=
| Ok (a : A)
| Raise (e : exn).
Arguments Ok {A} a.
Arguments Raise {A} e.

Definition bind {A B : Type} (r : result A) (k : A -> result B) : result B :=
  match r with
  | Ok a => k a
  | Raise e => Raise e
  end.

Notation "x <- e ;; k" := (bind e (fun x => k))
  (at level 100, e at next level, right associativity).

(** ** Python and numpy primitives *)

(** [a / b] on floats. *)
Definition float_div (a b : Q) : result Q :=
  if Qeq_bool b 0 then Raise ZeroDivisionError else Ok (a / b).

(** [a < b] on floats. *)
Definition Qlt_bool (a b : Q) : bool := negb (Qle_bool b a).

(** [sum(xs)]: starts from [0] and adds from the left. *)
Definition py_sum (xs : list Q) : Q := fold_left Qplus xs 0.

(** [max(a, b)] and [min(a, b)] of two arguments: the first one wins a tie. *)
Definition py_max (a b : Q) : Q := if Qlt_bool a b then b else a.
Definition py_min (a b : Q) : Q := if Qlt_bool b a then b else a.

(** [enumerate(xs)]. *)
Definition enumerate {A : Type} (xs : list A) : list (nat * A) :=
  combine (seq 0 (length xs)) xs.

(** [numpy.linspace(start, stop, num)] with its default [endpoint=True]:
    [arange(num) * step + start] with [step = (stop - start) / (num - 1)],
    computed as [arange(num) / div * delta] when the step is zero, and the
    last sample overwritten with [stop] when [num > 1]. *)
Definition linspace (start stop : Q) (num : nat) : list Q :=
  let div := (num - 1)%nat in
  let delta := stop - start in
  let y := map (fun i : nat => inject_Z (Z.of_nat i)) (seq 0 num) in
  let y :=
    if (0 <? div)%nat then
      let step := delta / inject_Z (Z.of_nat div) in
      if Qeq_bool step 0
      then map (fun yi => yi / inject_Z (Z.of_nat div) * delta) y
      else map (fun yi => yi * step) y
    else map (fun yi => yi * delta) y in
  let y := map (fun yi => yi + start) y in
  if (1 <? num)%nat then <[(num - 1)%nat := stop]> y else y.

(** [numpy.zeros_like(xs)]. *)
Definition zeros_like (xs : list Q) : list Q := replicate (length xs) 0.

(** [numpy.argmin(xs)] and [numpy.argmax(xs)]: the index of the first
    occurrence of the least (greatest) element. *)
Fixpoint arg_best (better : Q -> Q -> bool) (best_i : nat) (best : Q)
    (i : nat) (xs : list Q) : nat :=
  match xs with
  | [] => best_i
  | x :: xs' =>
      if better x best
      then arg_best better i x (S i) xs'
      else arg_best better best_i best (S i) xs'
  end.

Definition argmin (xs : list Q) : result nat :=
  match xs with
  | [] => Raise ValueError
  | x :: xs' => Ok (arg_best Qlt_bool 0%nat x 1%nat xs')
  end.

Definition argmax (xs : list Q) : result nat :=
  match xs with
  | [] => Raise ValueError
  | x :: xs' => Ok (arg_best (fun a b => Qlt_bool b a) 0%nat x 1%nat xs')
  end.

(** [xs[i]]; the indices used below are always in range. *)
Definition getitem (xs : list Q) (i : nat) : Q := default 0 (xs !! i).

(** ** The program *)

(** A point load or a reaction: the tuple [(x, F)]. *)
Definition load : Type := Q * Q.

(** The attributes of a [DistributedLoad] object. *)
Record DistributedLoad : Type := mkDistributedLoad {
  func_str : string;
  func : Q -> Q;
  start : Q;
  end_ : Q;
  total_force : Q;
  centroid : Q
}.

Section Program.

(** [quad(f, a, b)] returns the pair of the integral and an error estimate. *)
Variable quad : (Q -> Q) -> Q -> Q -> Q * Q.

(** [py_eval s x] is the value of [eval(s)] where the variable [x] of the
    expression [s] is bound to [x]. *)
Variable py_eval : string -> Q -> Q.

(** [DistributedLoad.__init__]. *)
Definition DistributedLoad_init (func_str : string) (start end_ : Q)
  : result DistributedLoad :=
  let func := fun x => py_eval func_str x in
  let total_force := fst (quad func start end_) in
  centroid <- float_div (fst (quad (fun x => x * func x) start end_)) total_force ;;
  Ok (mkDistributedLoad func_str func start end_ total_force centroid).

(** [calculate_diagrams].  The arrays [shear] and [moment] start as zeros
    and the loop over [enumerate(x_vals)] writes them in place, slot [i]
    at iteration [i]. *)
Definition calculate_diagrams (L : Q) (point_loads : list load)
    (dist_loads : list DistributedLoad) (reactions : list load)
  : result (list Q * list Q * list Q) :=
  let x_vals := linspace 0 L 1000 in
  let shear := zeros_like x_vals in
  let moment := zeros_like x_vals in
  let all_loads := point_loads ++ reactions in
  let '(shear, moment) :=
    fold_left (fun '(shear, moment) '(i, x) =>
      let shear :=
        <[i := py_sum (map (fun '(xf, F) => F)
                 (List.filter (fun '(xf, F) => Qle_bool xf x) all_loads))]>
          shear in
      let moment :=
        <[i := py_sum (map (fun '(xf, F) => F * (x - xf))
                 (List.filter (fun '(xf, F) => Qle_bool xf x) all_loads))]>
          moment in
      fold_left (fun '(shear, moment) dl =>
        if Qle_bool (start dl) x then
          let a := py_max (start dl) 0 in
          let b := py_min (end_ dl) x in
          if Qlt_bool a b then
            (<[i := getitem shear i + fst (quad (func dl) a b)]> shear,
             <[i := getitem moment i
                    + fst (quad (fun xi => (x - xi) * func dl xi) a b)]> moment)
          else (shear, moment)
        else (shear, moment)) dist_loads (shear, moment))
      (enumerate x_vals) (shear, moment) in
  Ok (x_vals, shear, moment).

(** [calculate_internal_forces]. *)
Definition calculate_internal_forces (x L : Q) (point_loads : list load)
    (dist_loads : list DistributedLoad) (reactions : list load)
  : result (Q * Q) :=
  let shear :=
    py_sum (map (fun '(xf, F) => F)
                (List.filter (fun '(xf, F) => Qle_bool xf x)
                        (point_loads ++ reactions))) in
  let moment :=
    py_sum (map (fun '(xf, F) => F * (x - xf))
                (List.filter (fun '(xf, F) => Qle_bool xf x)
                        (point_loads ++ reactions))) in
  let '(shear, moment) :=
    fold_left (fun '(shear, moment) dl =>
      if Qle_bool (start dl) x then
        let a := py_max (start dl) 0 in
        let b := py_min (end_ dl) x in
        if Qlt_bool a b then
          (shear + fst (quad (func dl) a b),
           moment + fst (quad (fun xi => (x - xi) * func dl xi) a b))
        else (shear, moment)
      else (shear, moment)) dist_loads (shear, moment) in
  Ok (shear, moment).

End Program.

(** A point that [plot_diagrams] marks and annotates: the prefix, the index
    found, and the coordinates [x_vals[idx]] and [values[idx]]. *)
Definition annotation : Type := string * nat * Q * Q.

(** [ax.plot(xs, ys)] and [ax.fill_between(xs, ys)]: matplotlib refuses,
    with [ValueError], two sequences of different lengths. *)
Definition ax_plot (xs ys : list Q) : result unit :=
  if (length xs =? length ys)%nat then Ok tt else Raise ValueError.

Definition ax_fill_between (xs ys : list Q) : result unit :=
  if (length xs =? length ys)%nat then Ok tt else Raise ValueError.

(** [plot_diagrams], as far as it computes: the curves it hands to
    matplotlib and the extremes of the two sequences, which it marks on the
    axes [ax1] (shear) and [ax2] (moment).  The drawing itself is not
    modelled. *)
Definition plot_diagrams (x_vals shear moment : list Q)
  : result (list annotation * list annotation) :=
  line1 <- ax_plot x_vals shear ;;
  area1 <- ax_fill_between x_vals shear ;;
  shear_min_idx <- argmin shear ;;
  shear_max_idx <- argmax shear ;;
  let ax1 :=
    map (fun '(idx, prefix) =>
           (prefix, idx, getitem x_vals idx, getitem shear idx))
        [(shear_min_idx, "Min"%string); (shear_max_idx, "Max"%string)] in
  line2 <- ax_plot x_vals moment ;;
  area2 <- ax_fill_between x_vals moment ;;
  moment_min_idx <- argmin moment ;;
  moment_max_idx <- argmax moment ;;
  let ax2 :=
    map (fun '(idx, prefix) =>
           (prefix, idx, getitem x_vals idx, getitem moment idx))
        [(moment_min_idx, "Min"%string); (moment_max_idx, "Max"%string)] in
  Ok (ax1, ax2).

(** The block [# Calculate reactions] of [main]: from the beam length, the
    loads and the support positions read from the user to the list
    [reactions].  The block does not read [supports]. *)
Definition main_reactions (L : Q) (point_loads : list load)
    (dist_loads : list DistributedLoad) (supports : list Q)
  : result (list load) :=
  let sum_F :=
    py_sum (map (fun '(_, F) => F) point_loads)
    + py_sum (map (fun dl => total_force dl) dist_loads) in
  let sum_M :=
    py_sum (map (fun '(x, F) => F * x) point_loads)
    + py_sum (map (fun dl => total_force dl * centroid dl) dist_loads) in
  R2 <- float_div (- sum_M) L ;;
  let R1 := - sum_F - R2 in
  Ok [(0, R1); (L, R2)].

(** ** Reference instances of the external routines

    Simpson's rule is a quadrature that is exact on polynomials up to
    degree three; it instantiates [quad] where a statement is evaluated on
    concrete loads.  [eval_demo] evaluates the three expressions that the
    input prompt of [main] gives as examples, and [0] for any other text. *)
Definition simpson (f : Q -> Q) (a b : Q) : Q * Q :=
  ((b - a) / 6 * (f a + 4 * f ((a + b) / 2) + f b), 0).

Definition eval_demo (s : string) (x : Q) : Q :=
  if String.eqb s "100" then 100
  else if String.eqb s "50*x" then 50 * x
  else if String.eqb s "20*(x-2)**2" then 20 * ((x - 2) * (x - 2))
  else 0.

(** ** Quantities of the statements *)


(** The terms of the two sums over the point loads and reactions:
    [F for xf, F in loads if xf <= x] and
    [F * (x - xf) for xf, F in loads if xf <= x]. *)
Definition shear_terms (x : Q) (loads : list load) : list Q :=
  map (fun '(xf, F) => F)
      (List.filter (fun '(xf, F) => Qle_bool xf x) loads).

Definition moment_terms (x : Q) (loads : list load) : list Q :=
  map (fun '(xf, F) => F * (x - xf))
      (List.filter (fun '(xf, F) => Qle_bool xf x) loads).


(** The two functions that compute internal forces, taken apart: the sums
    over the point loads, the step of the loop over the distributed loads,
    and the two loops of the sampler on its arrays. *)
Section Decomposition.

Variable quad : (Q -> Q) -> Q -> Q -> Q * Q.

(** The two sums over the point loads and reactions at or before [x]. *)
Definition point_sums (x : Q) (loads : list load) : Q * Q :=
  (py_sum (map (fun '(xf, F) => F)
               (List.filter (fun '(xf, F) => Qle_bool xf x) loads)),
   py_sum (map (fun '(xf, F) => F * (x - xf))
               (List.filter (fun '(xf, F) => Qle_bool xf x) loads))).

(** One distributed load added to the running pair (shear, moment). *)
Definition dist_step (x : Q) : Q * Q -> DistributedLoad -> Q * Q :=
  fun '(shear, moment) dl =>
  if Qle_bool (start dl) x then
    let a := py_max (start dl) 0 in
    let b := py_min (end_ dl) x in
    if Qlt_bool a b then
      (shear + fst (quad (func dl) a b),
       moment + fst (quad (fun xi => (x - xi) * func dl xi) a b))
    else (shear, moment)
  else (shear, moment).

Definition internal_forces (x : Q) (point_loads : list load)
    (dist_loads : list DistributedLoad) (reactions : list load) : Q * Q :=
  fold_left (dist_step x) dist_loads (point_sums x (point_loads ++ reactions)).

(** The loop over the distributed loads, as [calculate_diagrams] runs it on
    slot [i] of its two arrays. *)
Definition slot_step (i : nat) (x : Q)
  : list Q * list Q -> DistributedLoad -> list Q * list Q :=
  fun '(shear, moment) dl =>
  if Qle_bool (start dl) x then
    let a := py_max (start dl) 0 in
    let b := py_min (end_ dl) x in
    if Qlt_bool a b then
      (<[i := getitem shear i + fst (quad (func dl) a b)]> shear,
       <[i := getitem moment i
              + fst (quad (fun xi => (x - xi) * func dl xi) a b)]> moment)
    else (shear, moment)
  else (shear, moment).

(** One iteration of the loop over [enumerate(x_vals)]. *)
Definition sample_step (all_loads : list load) (dls : list DistributedLoad)
  : list Q * list Q -> nat * Q -> list Q * list Q :=
  fun '(shear, moment) '(i, x) =>
  let shear :=
    <[i := py_sum (map (fun '(xf, F) => F)
             (List.filter (fun '(xf, F) => Qle_bool xf x) all_loads))]>
      shear in
  let moment :=
    <[i := py_sum (map (fun '(xf, F) => F * (x - xf))
             (List.filter (fun '(xf, F) => Qle_bool xf x) all_loads))]>
      moment in
  fold_left (slot_step i x) dls (shear, moment).

End Decomposition.

(** ** The beam drawing and the whole run

    [plot_beam] and [main] act on a matplotlib axes object and on the
    terminal.  Their model keeps what they compute: the artists added to the
    axes, with their coordinates, in the order of the calls, and the values
    that [main] prints.  Pure style ([linewidth], [zorder], [alpha],
    [markersize], [fontsize], the hidden y axis and the grid) is not
    recorded. *)

(** The two formatted texts: [f'{F:.1f} N'] and
    [f'q(x) = {func_str}\nTotal: {total:.1f} N']. *)
Inductive label : Type :=
| ForceLabel (F : Q)
| LoadLabel (func_str : string) (total : Q).

Inductive artist : Type :=
| Line (xs ys : list Q) (fmt : string)
| Marker (x y : Q) (fmt : string)
| Arrow (x y dx dy head_width head_length : Q) (color : string)
| Text (x y : Q) (s : label) (color ha : string) (va : option string)
| Fill (xs ys : list Q) (color : string).

Record axes : Type := mkAxes {
  artists : list artist;
  xlim : Q * Q;
  ylim : Q * Q;
  title : string;
  xlabel : string
}.

(** [max(y) if len(y) > 0 else 0]; [max] keeps the first of equal items. *)
Definition max_or_zero (y : list Q) : Q :=
  match y with
  | [] => 0
  | y0 :: ys => fold_left py_max ys y0
  end.

(** [plot_beam]; it clears the axes first, so the result does not depend on
    what the axes held. *)
Definition plot_beam (L : Q) (point_loads : list load)
    (dist_loads : list DistributedLoad) (supports : list Q)
    (show_reactions : bool) : axes :=
  let beam := [Line [0; L] [0; 0] "k-"] in
  let marks := map (fun x => Marker x 0 "^") supports in
  let arrows :=
    flat_map (fun '(x, F) =>
      let color := if Qlt_bool 0 F then "blue"%string else "red"%string in
      let direction := if Qlt_bool 0 F then 1 else -1 in
      let arrow_length := L / 10 in
      [Arrow x 0 0 (direction * arrow_length)
             (L / 30) (arrow_length / 2) color;
       Text (x + L / 50) (direction * (arrow_length + L / 15))
            (ForceLabel (Qabs F)) color
            (if Qlt_bool 0 F then "left"%string else "right"%string)
            (Some "center"%string)]) point_loads in
  let shapes :=
    flat_map (fun dl =>
      let x := linspace (start dl) (end_ dl) 100 in
      let y := map (fun xi => func dl xi) x in
      let max_y := max_or_zero y in
      [Fill x y "green"; Line x y "g-";
       Text ((start dl + end_ dl) / 2) (max_y + L / 20)
            (LoadLabel (func_str dl) (total_force dl))
            "darkgreen" "center" None]) dist_loads in
  mkAxes (beam ++ marks ++ arrows ++ shapes)
         (- L / 5, L + L / 5) (- L / 2, L / 2)
         ("Beam Loading Diagram"
          ++ (if show_reactions then " (With Reactions)" else ""))%string
         "Position (m)".

(** The values [main] reads, after [float] and [int] have parsed them: the
    counts are the lengths of the lists, and [calc_internal] is the last
    answer after [strip().lower()]. *)
Record main_input : Type := mkInput {
  in_L : Q;
  in_point_loads : list load;
  in_dist_loads : list (string * Q * Q);
  in_supports : list Q;
  in_calc_internal : string;
  in_x : Q
}.

(** What [main] shows: the reactions printed, the beam drawing, the marked
    extremes of the two diagrams, and the internal forces printed when they
    are asked for. *)
Record main_output : Type := mkOutput {
  out_reactions : list load;
  out_beam : axes;
  out_extremes : list annotation * list annotation;
  out_internal : option (Q * Q)
}.

Section Main.

Variable quad : (Q -> Q) -> Q -> Q -> Q * Q.
Variable py_eval : string -> Q -> Q.

(** The loop that reads and constructs the distributed loads. *)
Fixpoint main_dist_loads (specs : list (string * Q * Q))
  : result (list DistributedLoad) :=
  match specs with
  | [] => Ok []
  | (func_str, start, end_) :: specs' =>
      dl <- DistributedLoad_init quad py_eval func_str start end_ ;;
      dist_loads <- main_dist_loads specs' ;;
      Ok (dl :: dist_loads)
  end.

(** [main]. *)
Definition main (inp : main_input) : result main_output :=
  let L := in_L inp in
  let point_loads := in_point_loads inp in
  dist_loads <- main_dist_loads (in_dist_loads inp) ;;
  let supports := in_supports inp in
  reactions <- main_reactions L point_loads dist_loads supports ;;
  let ax := plot_beam L (point_loads ++ reactions) dist_loads supports true in
  diagrams <- calculate_diagrams quad L point_loads dist_loads reactions ;;
  let '(x_vals, shear, moment) := diagrams in
  extremes <- plot_diagrams x_vals shear moment ;;
  internal <-
    (if String.eqb (in_calc_internal inp) "yes"
     then r <- calculate_internal_forces quad (in_x inp) L point_loads
                 dist_loads reactions ;;
          Ok (Some r)
     else Ok None) ;;
  Ok (mkOutput reactions ax extremes internal).

End Main.

(** The positions [x] at which a distributed load adds nothing: before its
    start, at or before the origin, and everywhere when its interval is
    empty, reversed or left of the origin. *)
Definition skipped (x : Q) (dl : DistributedLoad) : Prop :=
  x < start dl \/ x <= 0 \/ end_ dl <= start dl \/ end_ dl <= 0.


(** An arrow, with its head, or the anchor of a force label lies within
    the limits of the axes; other artists are not constrained. *)
Definition in_view (ax : axes) (a : artist) : Prop :=
  match a with
  | Arrow x y dx dy head_width head_length _ =>
      fst (xlim ax) <= x + dx - head_width / 2
      /\ x + dx + head_width / 2 <= snd (xlim ax)
      /\ fst (ylim ax) <= y /\ y <= snd (ylim ax)
      /\ fst (ylim ax) <= y + dy - head_length
      /\ y + dy + head_length <= snd (ylim ax)
  | Text x y (ForceLabel _) _ _ _ =>
      fst (xlim ax) <= x /\ x <= snd (xlim ax)
      /\ fst (ylim ax) <= y /\ y <= snd (ylim ax)
  | _ => True
  end.

(** Division by a numeral, written as a product for [lra]. *)
Ltac const_div :=
  unfold Qdiv;
  repeat match goal with
         | |- context [Qinv (Qmake ?n ?d)] =>
             let v := eval vm_compute in (Qinv (Qmake n d)) in
             change (Qinv (Qmake n d)) with v
         end.

(** ** Sums *)

(** A sum whose terms are all zero is zero. *)
Lemma fold_left_Qplus_zeros (xs : list Q) (a : Q) :
  Forall (fun t => t == 0) xs -> fold_left Qplus xs a == a.
Proof.
  intros Hz. revert a.
  induction Hz as [|x xs Hx _ IH]; intros a; cbn [fold_left].
  - reflexivity.
  - rewrite IH, Hx. ring.
Qed.

Lemma py_sum_zeros (xs : list Q) :
  Forall (fun t => t == 0) xs -> py_sum xs == 0.
Proof. apply fold_left_Qplus_zeros. Qed.

(** ** The reactions *)

Lemma float_div_ok (a b : Q) : ~ b == 0 -> float_div a b = Ok (a / b).
Proof.
  intros Hb. unfold float_div.
  destruct (Qeq_bool b 0) eqn:E; [|reflexivity].
  apply Qeq_bool_eq in E. contradiction.
Qed.

Lemma float_div_zero (a b : Q) : b == 0 -> float_div a b = Raise ZeroDivisionError.
Proof. intros Hb. unfold float_div. now rewrite (Qeq_eq_bool _ _ Hb). Qed.

(** The reactions that [main] computes on a beam of nonzero length, as the
    operations that compute them. *)
Lemma main_reactions_value (L : Q) (pl : list load) (dls : list DistributedLoad)
    (supports : list Q) :
  ~ L == 0 ->
  exists R1 R2,
    main_reactions L pl dls supports = Ok [(0, R1); (L, R2)]
    /\ R2 = - (py_sum (map (fun '(x, F) => F * x) pl)
               + py_sum (map (fun dl => total_force dl * centroid dl) dls)) / L
    /\ R1 = - (py_sum (map (fun '(_, F) => F) pl)
               + py_sum (map (fun dl => total_force dl) dls)) - R2.
Proof.
  intros HL. unfold main_reactions. rewrite (float_div_ok _ _ HL). cbn [bind].
  eexists _, _. repeat split.
Qed.

Lemma main_reactions_zero_length (L : Q) (pl : list load)
    (dls : list DistributedLoad) (supports : list Q) :
  L == 0 -> main_reactions L pl dls supports = Raise ZeroDivisionError.
Proof.
  intros HL. unfold main_reactions. now rewrite (float_div_zero _ _ HL).
Qed.




(** C4 (as amended).  The reaction computation never raises
    [UnsolvableSystemError] and does not depend on the supports: for every
    number and placement of supports it succeeds exactly when the beam
    length is nonzero, and on a beam of length zero it raises
    [ZeroDivisionError]. *)
Theorem main_reactions_failure (L : Q) (pl : list load)
    (dls : list DistributedLoad) (supports : list Q) :
  main_reactions L pl dls supports <> Raise UnsolvableSystemError
  /\ main_reactions L pl dls supports = main_reactions L pl dls []
  /\ ((exists rs, main_reactions L pl dls supports = Ok rs) <-> ~ L == 0)
  /\ (main_reactions L pl dls supports = Raise ZeroDivisionError <-> L == 0).
Proof.
  destruct (Qeq_dec L 0) as [HL|HL].
  - rewrite (main_reactions_zero_length L pl dls supports HL).
    repeat split; try discriminate; try tauto.
    + symmetry. now apply main_reactions_zero_length.
    + intros [rs Hrs]. discriminate Hrs.
  - destruct (main_reactions_value L pl dls supports HL)
      as (R1 & R2 & Hrun & _).
    rewrite Hrun. repeat split; try discriminate; try tauto.
    + symmetry. exact Hrun.
    + intros _. eauto.
Qed.

(** C4, refuted as stated: with no support at all, with three supports and
    with two coinciding supports the reactions are computed. *)
Lemma main_reactions_any_supports :
  (exists rs, main_reactions 10 [(5, -100)] [] [] = Ok rs)
  /\ (exists rs, main_reactions 10 [(5, -100)] [] [0; 5; 10] = Ok rs)
  /\ (exists rs, main_reactions 10 [(5, -100)] [] [3; 3] = Ok rs).
Proof. repeat split; eexists; vm_compute; reflexivity. Qed.

(** ** Distributed loads *)

(** Construction runs one division, by the integrated total force. *)
Lemma DistributedLoad_init_ok (quad : (Q -> Q) -> Q -> Q -> Q * Q)
    (py_eval : string -> Q -> Q) (s : string) (a b : Q) :
  ~ fst (quad (py_eval s) a b) == 0 ->
  DistributedLoad_init quad py_eval s a b
  = Ok (mkDistributedLoad s (fun x => py_eval s x) a b
          (fst (quad (py_eval s) a b))
          (fst (quad (fun x => x * py_eval s x) a b)
           / fst (quad (py_eval s) a b))).
Proof.
  intros Hne. unfold DistributedLoad_init.
  change (fun x : Q => py_eval s x) with (py_eval s).
  now rewrite (float_div_ok _ _ Hne).
Qed.

Lemma DistributedLoad_init_zero (quad : (Q -> Q) -> Q -> Q -> Q * Q)
    (py_eval : string -> Q -> Q) (s : string) (a b : Q) :
  fst (quad (py_eval s) a b) == 0 ->
  DistributedLoad_init quad py_eval s a b = Raise ZeroDivisionError.
Proof.
  intros Hz. unfold DistributedLoad_init.
  change (fun x : Q => py_eval s x) with (py_eval s).
  now rewrite (float_div_zero _ _ Hz).
Qed.

(** C6 (as amended).  Construction checks neither the order of the bounds
    nor the beam length, which it is not given, and never raises
    [InvalidIntervalError].  For every pair of bounds, reversed or outside
    the beam included, it succeeds and keeps the bounds as given when the
    integrated total force is not zero, and it fails with
    [ZeroDivisionError] when the integrated total force is zero, as on an
    interval of length zero. *)
Theorem DistributedLoad_init_no_interval_check
    (quad : (Q -> Q) -> Q -> Q -> Q * Q) (py_eval : string -> Q -> Q)
    (s : string) (a b : Q) :
  DistributedLoad_init quad py_eval s a b <> Raise InvalidIntervalError
  /\ (~ fst (quad (py_eval s) a b) == 0 ->
      exists dl, DistributedLoad_init quad py_eval s a b = Ok dl
                 /\ start dl = a /\ end_ dl = b)
  /\ (fst (quad (py_eval s) a b) == 0 ->
      DistributedLoad_init quad py_eval s a b = Raise ZeroDivisionError).
Proof.
  split; [|split].
  - destruct (Qeq_dec (fst (quad (py_eval s) a b)) 0) as [Hz|Hne].
    + rewrite (DistributedLoad_init_zero quad py_eval s a b Hz). discriminate.
    + rewrite (DistributedLoad_init_ok quad py_eval s a b Hne). discriminate.
  - intros Hne. rewrite (DistributedLoad_init_ok quad py_eval s a b Hne).
    eexists. split; [reflexivity|]. split; reflexivity.
  - apply DistributedLoad_init_zero.
Qed.

(** C6, refuted as stated: the load [100] over the reversed interval from
    [3] to [1] is constructed, and so is the load [100] over [[8, 12]],
    whatever the beam length; over the valid interval [[2, 2]] construction
    fails. *)
Lemma DistributedLoad_init_reversed_interval :
  (exists dl, DistributedLoad_init simpson eval_demo "100" 3 1 = Ok dl
              /\ start dl = 3 /\ end_ dl = 1)
  /\ (exists dl, DistributedLoad_init simpson eval_demo "100" 8 12 = Ok dl
                 /\ start dl = 8 /\ end_ dl = 12)
  /\ DistributedLoad_init simpson eval_demo "100" 2 2 = Raise ZeroDivisionError.
Proof.
  split; [|split].
  - eexists. split; [apply DistributedLoad_init_ok; vm_compute; discriminate|].
    split; reflexivity.
  - eexists. split; [apply DistributedLoad_init_ok; vm_compute; discriminate|].
    split; reflexivity.
  - apply DistributedLoad_init_zero. vm_compute. reflexivity.
Qed.

(** C7 (as amended).  When the integrated total force is zero, construction
    itself fails, at the division that computes the centroid, and the error
    is Python's [ZeroDivisionError]. *)
Theorem DistributedLoad_init_zero_total_force
    (quad : (Q -> Q) -> Q -> Q -> Q * Q) (py_eval : string -> Q -> Q)
    (s : string) (a b : Q) :
  fst (quad (py_eval s) a b) == 0 ->
  DistributedLoad_init quad py_eval s a b = Raise ZeroDivisionError.
Proof. apply DistributedLoad_init_zero. Qed.

Lemma DistributedLoad_init_zero_total_force_witness :
  DistributedLoad_init simpson eval_demo "50*x" (-1) 1 = Raise ZeroDivisionError.
Proof.
  apply (DistributedLoad_init_zero_total_force simpson eval_demo "50*x" (-1) 1).
  vm_compute. reflexivity.
Defined.

(** C7, refuted as stated: the load [100] over [[2, 2]] has total force
    zero, and its construction does not fail with [DegenerateLoadError]. *)
Lemma DistributedLoad_init_not_DegenerateLoadError :
  fst (simpson (eval_demo "100") 2 2) == 0
  /\ DistributedLoad_init simpson eval_demo "100" 2 2 <> Raise DegenerateLoadError.
Proof.
  split; [vm_compute; reflexivity|].
  rewrite DistributedLoad_init_zero by (vm_compute; reflexivity).
  discriminate.
Qed.

(** ** Internal forces *)

Section InternalForces.

Variable quad : (Q -> Q) -> Q -> Q -> Q * Q.

Lemma calculate_internal_forces_eq (x L : Q) (pl : list load)
    (dls : list DistributedLoad) (rs : list load) :
  calculate_internal_forces quad x L pl dls rs = Ok (internal_forces quad x pl dls rs).
Proof.
  unfold calculate_internal_forces, internal_forces, point_sums.
  match goal with
  | |- (let '(_, _) := fold_left ?f ?l ?a in _) = Ok (fold_left ?g ?l ?a) =>
      change f with g; destruct (fold_left g l a) as [s m]
  end.
  reflexivity.
Qed.

Lemma getitem_insert (xs : list Q) (i : nat) (v : Q) :
  (i < length xs)%nat -> getitem (<[i := v]> xs) i = v.
Proof. intros Hi. unfold getitem. now rewrite list_lookup_insert_eq. Qed.

Lemma insert_getitem (xs : list Q) (i : nat) :
  (i < length xs)%nat -> <[i := getitem xs i]> xs = xs.
Proof.
  intros Hi. apply list_insert_id. unfold getitem.
  destruct (lookup_lt_is_Some_2 xs i Hi) as [v ->]. reflexivity.
Qed.

Lemma insert_middle (pre : list Q) (n : nat) (v0 v : Q) (rest : list Q) :
  length pre = n -> <[n := v]> (pre ++ v0 :: rest) = pre ++ v :: rest.
Proof.
  intros <-. rewrite <- (Nat.add_0_r (length pre)). now rewrite insert_app_r.
Qed.

Lemma slot_loop (i : nat) (x : Q) (dls : list DistributedLoad) :
  forall shear moment : list Q,
    (i < length shear)%nat -> (i < length moment)%nat ->
    fold_left (slot_step quad i x) dls (shear, moment)
    = (<[i := fst (fold_left (dist_step quad x) dls
                     (getitem shear i, getitem moment i))]> shear,
       <[i := snd (fold_left (dist_step quad x) dls
                     (getitem shear i, getitem moment i))]> moment).
Proof.
  induction dls as [|dl dls IH]; intros shear moment Hs Hm.
  - cbn [fold_left fst snd]. now rewrite !insert_getitem.
  - cbn [fold_left]. unfold slot_step at 2, dist_step at 2 4.
    destruct (Qle_bool (start dl) x); [|now apply IH].
    cbv zeta.
    destruct (Qlt_bool (py_max (start dl) 0) (py_min (end_ dl) x));
      [|now apply IH].
    rewrite IH by (now rewrite length_insert).
    rewrite !getitem_insert by assumption.
    now rewrite !list_insert_insert_eq.
Qed.

Lemma sample_step_eq (pl rs : list load) (dls : list DistributedLoad)
    (shear moment : list Q) (i : nat) (x : Q) :
  (i < length shear)%nat -> (i < length moment)%nat ->
  sample_step quad (pl ++ rs) dls (shear, moment) (i, x)
  = (<[i := fst (internal_forces quad x pl dls rs)]> shear,
     <[i := snd (internal_forces quad x pl dls rs)]> moment).
Proof.
  intros Hs Hm. unfold sample_step. cbv zeta.
  rewrite slot_loop by (now rewrite length_insert).
  rewrite !getitem_insert by assumption.
  rewrite !list_insert_insert_eq. reflexivity.
Qed.

Lemma sample_loop (pl rs : list load) (dls : list DistributedLoad)
    (xs : list Q) :
  forall pre_s pre_m rest_s rest_m : list Q,
    length pre_s = length pre_m ->
    length rest_s = length xs -> length rest_m = length xs ->
    fold_left (sample_step quad (pl ++ rs) dls)
      (combine (seq (length pre_s) (length xs)) xs)
      (pre_s ++ rest_s, pre_m ++ rest_m)
    = (pre_s ++ map (fun x => fst (internal_forces quad x pl dls rs)) xs,
       pre_m ++ map (fun x => snd (internal_forces quad x pl dls rs)) xs).
Proof.
  induction xs as [|x xs IH]; intros pre_s pre_m rest_s rest_m Hpre Hs Hm.
  - destruct rest_s; [|discriminate Hs]. destruct rest_m; [|discriminate Hm].
    reflexivity.
  - destruct rest_s as [|s0 rest_s]; [discriminate Hs|].
    destruct rest_m as [|m0 rest_m]; [discriminate Hm|].
    cbn [length seq combine fold_left map].
    rewrite sample_step_eq
      by (rewrite length_app; cbn [length]; lia).
    rewrite (insert_middle pre_s (length pre_s)) by reflexivity.
    rewrite (insert_middle pre_m (length pre_s)) by (now symmetry).
    rewrite !(cons_middle _ pre_s), !(cons_middle _ pre_m), !app_assoc.
    replace (S (length pre_s))
      with (length (pre_s ++ [fst (internal_forces quad x pl dls rs)]))
      by (rewrite length_app; cbn [length]; lia).
    apply IH.
    + rewrite !length_app. cbn [length]. lia.
    + now injection Hs.
    + now injection Hm.
Qed.

(** The sampler returns the grid and, slot by slot, the internal forces at
    the grid points. *)
Lemma calculate_diagrams_eq (L : Q) (pl : list load)
    (dls : list DistributedLoad) (rs : list load) :
  calculate_diagrams quad L pl dls rs
  = Ok (linspace 0 L 1000,
        map (fun x => fst (internal_forces quad x pl dls rs)) (linspace 0 L 1000),
        map (fun x => snd (internal_forces quad x pl dls rs)) (linspace 0 L 1000)).
Proof.
  unfold calculate_diagrams. generalize (linspace 0 L 1000). intros xs.
  cbv zeta.
  match goal with
  | |- (let '(_, _) := fold_left ?f _ _ in _) = _ =>
      change f with (sample_step quad (pl ++ rs) dls)
  end.
  unfold enumerate, zeros_like.
  pose proof (sample_loop pl rs dls xs [] [] (replicate (length xs) 0)
                (replicate (length xs) 0) eq_refl
                (length_replicate _ _) (length_replicate _ _)) as Hloop.
  cbn [length app] in Hloop. rewrite Hloop. reflexivity.
Qed.

End InternalForces.

(** ** The sampling grid *)

Lemma length_linspace (a b : Q) (n : nat) : length (linspace a b n) = n.
Proof.
  unfold linspace. cbv zeta.
  destruct (1 <? n)%nat; rewrite ?length_insert, length_map;
    destruct (0 <? n - 1)%nat; try destruct (Qeq_bool _ 0);
    now rewrite !length_map, length_seq.
Qed.

Lemma lookup_map {A B : Type} (f : A -> B) (l : list A) (i : nat) :
  map f l !! i = f <$> l !! i.
Proof. exact (list_lookup_fmap f l i). Qed.

Lemma linspace_last (a b : Q) (n : nat) :
  (1 < n)%nat -> linspace a b n !! (n - 1)%nat = Some b.
Proof.
  intros Hn. pose proof (length_linspace a b n) as Hlen. revert Hlen.
  unfold linspace. cbv zeta.
  destruct (Nat.ltb_spec 1 n) as [_|Hle]; [|lia].
  rewrite length_insert. intros Hlen.
  apply list_lookup_insert_eq. lia.
Qed.



(** Every sample of [linspace a b n] but the last is the product that numpy
    computes, shifted by [a]. *)
Lemma linspace_inner (a b : Q) (n i : nat) :
  (i < n - 1)%nat ->
  linspace a b n !! i
  = Some (if Qeq_bool ((b - a) / inject_Z (Z.of_nat (n - 1))) 0
          then inject_Z (Z.of_nat i) / inject_Z (Z.of_nat (n - 1)) * (b - a) + a
          else inject_Z (Z.of_nat i) * ((b - a) / inject_Z (Z.of_nat (n - 1))) + a).
Proof.
  intros Hi. unfold linspace. cbv zeta.
  destruct (Nat.ltb_spec 1 n) as [_|Hle]; [|lia].
  rewrite list_lookup_insert_ne by lia.
  destruct (Nat.ltb_spec 0 (n - 1)%nat) as [_|Hle]; [|lia].
  destruct (Qeq_bool ((b - a) / inject_Z (Z.of_nat (n - 1))) 0);
    rewrite !lookup_map, (lookup_seq_lt 0 n i) by lia; reflexivity.
Qed.

(** ** Point queries and samples *)

(** C5 (as amended).  The point query checks no range: it returns a
    (shear, moment) pair for every position [x], also for [x < 0] and for
    [x > L], never raises [OutOfRangeError], and its result does not depend
    on the beam length [L]. *)
Theorem calculate_internal_forces_total
    (quad : (Q -> Q) -> Q -> Q -> Q * Q) (x L : Q) (pl : list load)
    (dls : list DistributedLoad) (rs : list load) :
  (exists shear moment,
      calculate_internal_forces quad x L pl dls rs = Ok (shear, moment))
  /\ calculate_internal_forces quad x L pl dls rs <> Raise OutOfRangeError
  /\ (forall L', calculate_internal_forces quad x L' pl dls rs
                 = calculate_internal_forces quad x L pl dls rs).
Proof.
  rewrite calculate_internal_forces_eq.
  destruct (internal_forces quad x pl dls rs) as [s m] eqn:E.
  split; [now exists s, m|]. split; [discriminate|].
  intros L'. rewrite calculate_internal_forces_eq, E. reflexivity.
Qed.

(** C5, refuted as stated: on the beam of length [10] with a load of
    [-100] at [5] and reactions of [50] at both ends, the queries at
    [x = -1] and at [x = 11] return a pair. *)
Lemma calculate_internal_forces_out_of_range :
  calculate_internal_forces simpson (-1) 10 [(5, -100)] [] [(0, 50); (10, 50)]
  = Ok (0, 0)
  /\ calculate_internal_forces simpson 11 10 [(5, -100)] [] [(0, 50); (10, 50)]
     = Ok (0, 0).
Proof. split; vm_compute; reflexivity. Qed.

(** C10.  The sampler returns three sequences of 1000 entries, and at every
    index [i] the entries [shear[i]] and [moment[i]] are exactly the pair
    that the point query returns at [x = x_vals[i]] for the same point
    loads, distributed loads and reactions. *)
Theorem calculate_diagrams_agrees_with_point_query
    (quad : (Q -> Q) -> Q -> Q -> Q * Q) (L : Q) (pl : list load)
    (dls : list DistributedLoad) (rs : list load) :
  exists x_vals shear moment,
    calculate_diagrams quad L pl dls rs = Ok (x_vals, shear, moment)
    /\ length x_vals = 1000%nat
    /\ forall i, (i < 1000)%nat ->
         exists x s m,
           x_vals !! i = Some x /\ shear !! i = Some s /\ moment !! i = Some m
           /\ calculate_internal_forces quad x L pl dls rs = Ok (s, m).
Proof.
  rewrite calculate_diagrams_eq. eexists _, _, _. split; [reflexivity|].
  split; [apply length_linspace|].
  intros i Hi.
  destruct (lookup_lt_is_Some_2 (linspace 0 L 1000) i) as [x Hx].
  { now rewrite length_linspace. }
  exists x, (fst (internal_forces quad x pl dls rs)),
    (snd (internal_forces quad x pl dls rs)).
  rewrite !lookup_map, Hx, calculate_internal_forces_eq.
  repeat split. now destruct (internal_forces quad x pl dls rs).
Qed.

(** ** The inclusion rule at a load position *)

Lemma shear_terms_insert (x p F : Q) (pre post : list load) :
  p <= x ->
  shear_terms x (pre ++ (p, F) :: post)
  = shear_terms x pre ++ F :: shear_terms x post.
Proof.
  intros Hle. apply Qle_bool_iff in Hle. unfold shear_terms.
  rewrite List.filter_app, map_app. cbn [List.filter]. now rewrite Hle.
Qed.

Lemma moment_terms_insert (x p F : Q) (pre post : list load) :
  p <= x ->
  moment_terms x (pre ++ (p, F) :: post)
  = moment_terms x pre ++ F * (x - p) :: moment_terms x post.
Proof.
  intros Hle. apply Qle_bool_iff in Hle. unfold moment_terms.
  rewrite List.filter_app, map_app. cbn [List.filter]. now rewrite Hle.
Qed.

(** The internal forces are the sums of the two lists of terms, to which
    the loop over the distributed loads adds. *)
Lemma internal_forces_terms (quad : (Q -> Q) -> Q -> Q -> Q * Q) (x : Q)
    (pl rs : list load) (dls : list DistributedLoad) :
  internal_forces quad x pl dls rs
  = fold_left (dist_step quad x) dls
      (py_sum (shear_terms x (pl ++ rs)), py_sum (moment_terms x (pl ++ rs))).
Proof. reflexivity. Qed.

(** C3.  Take a point load or a reaction [(p, F)] in the list
    [point_loads + reactions].  At a query position [x] with [p == x] the
    magnitude [F] is one of the terms of the shear sum, in the place of the
    load in the list, and the term of the load in the moment sum is
    [F * (x - p)], which is zero; the point query returns these two sums,
    with the distributed loads added.  The sampler returns 1000 samples and
    its slot [i] holds the same two sums at the position [x_vals[i]], where
    the load enters them in the same way when [p == x_vals[i]]. *)
Theorem load_at_query_position_is_included
    (quad : (Q -> Q) -> Q -> Q -> Q * Q) (x L p F : Q)
    (pre post pl rs : list load) (dls : list DistributedLoad) :
  p == x ->
  pl ++ rs = pre ++ (p, F) :: post ->
  (shear_terms x (pl ++ rs) = shear_terms x pre ++ F :: shear_terms x post
   /\ moment_terms x (pl ++ rs)
      = moment_terms x pre ++ F * (x - p) :: moment_terms x post
   /\ F * (x - p) == 0
   /\ calculate_internal_forces quad x L pl dls rs
      = Ok (fold_left (dist_step quad x) dls
              (py_sum (shear_terms x (pl ++ rs)),
               py_sum (moment_terms x (pl ++ rs)))))
  /\ exists x_vals shear moment,
       calculate_diagrams quad L pl dls rs = Ok (x_vals, shear, moment)
       /\ length x_vals = 1000%nat
       /\ length shear = 1000%nat
       /\ length moment = 1000%nat
       /\ forall i, (i < 1000)%nat ->
            exists xi,
              x_vals !! i = Some xi
              /\ shear !! i
                 = Some (fst (fold_left (dist_step quad xi) dls
                                (py_sum (shear_terms xi (pl ++ rs)),
                                 py_sum (moment_terms xi (pl ++ rs)))))
              /\ moment !! i
                 = Some (snd (fold_left (dist_step quad xi) dls
                                (py_sum (shear_terms xi (pl ++ rs)),
                                 py_sum (moment_terms xi (pl ++ rs)))))
              /\ (p == xi ->
                  shear_terms xi (pl ++ rs)
                  = shear_terms xi pre ++ F :: shear_terms xi post
                  /\ moment_terms xi (pl ++ rs)
                     = moment_terms xi pre ++ F * (xi - p)
                       :: moment_terms xi post
                  /\ F * (xi - p) == 0).
Proof.
  intros Hpx Hwith. split.
  - assert (Hle : p <= x) by (rewrite Hpx; apply Qle_refl).
    rewrite Hwith at 1 2.
    split; [now apply shear_terms_insert|].
    split; [now apply moment_terms_insert|].
    split; [rewrite Hpx; ring|].
    rewrite calculate_internal_forces_eq. now rewrite internal_forces_terms.
  - rewrite calculate_diagrams_eq. eexists _, _, _.
    split; [reflexivity|].
    split; [apply length_linspace|].
    split; [now rewrite length_map, length_linspace|].
    split; [now rewrite length_map, length_linspace|].
    intros i Hi.
    destruct (lookup_lt_is_Some_2 (linspace 0 L 1000) i) as [xi Hxi].
    { now rewrite length_linspace. }
    exists xi. rewrite !lookup_map, Hxi. cbn [fmap option_fmap option_map].
    split; [reflexivity|]. split; [now rewrite internal_forces_terms|].
    split; [now rewrite internal_forces_terms|].
    intros Hpxi.
    assert (Hle : p <= xi) by (rewrite Hpxi; apply Qle_refl).
    rewrite Hwith.
    split; [now apply shear_terms_insert|].
    split; [now apply moment_terms_insert|].
    rewrite Hpxi. ring.
Qed.

Lemma load_at_query_position_is_included_witness :
  (shear_terms 6 ([(2, -60)] ++ [(0, 40); (6, 20)])
   = shear_terms 6 [(2, -60); (0, 40)] ++ 20 :: shear_terms 6 []
   /\ moment_terms 6 ([(2, -60)] ++ [(0, 40); (6, 20)])
      = moment_terms 6 [(2, -60); (0, 40)] ++ 20 * (6 - 6) :: moment_terms 6 []
   /\ 20 * (6 - 6) == 0
   /\ calculate_internal_forces simpson 6 6 [(2, -60)] [] [(0, 40); (6, 20)]
      = Ok (fold_left (dist_step simpson 6) []
              (py_sum (shear_terms 6 ([(2, -60)] ++ [(0, 40); (6, 20)])),
               py_sum (moment_terms 6 ([(2, -60)] ++ [(0, 40); (6, 20)])))))
  /\ exists x_vals shear moment,
       calculate_diagrams simpson 6 [(2, -60)] [] [(0, 40); (6, 20)]
       = Ok (x_vals, shear, moment)
       /\ length x_vals = 1000%nat
       /\ length shear = 1000%nat
       /\ length moment = 1000%nat
       /\ forall i, (i < 1000)%nat ->
            exists xi,
              x_vals !! i = Some xi
              /\ shear !! i
                 = Some (fst (fold_left (dist_step simpson xi) []
                     (py_sum (shear_terms xi ([(2, -60)] ++ [(0, 40); (6, 20)])),
                      py_sum (moment_terms xi ([(2, -60)] ++ [(0, 40); (6, 20)])))))
              /\ moment !! i
                 = Some (snd (fold_left (dist_step simpson xi) []
                     (py_sum (shear_terms xi ([(2, -60)] ++ [(0, 40); (6, 20)])),
                      py_sum (moment_terms xi ([(2, -60)] ++ [(0, 40); (6, 20)])))))
              /\ (6 == xi ->
                  shear_terms xi ([(2, -60)] ++ [(0, 40); (6, 20)])
                  = shear_terms xi [(2, -60); (0, 40)] ++ 20 :: shear_terms xi []
                  /\ moment_terms xi ([(2, -60)] ++ [(0, 40); (6, 20)])
                     = moment_terms xi [(2, -60); (0, 40)] ++ 20 * (xi - 6)
                       :: moment_terms xi []
                  /\ 20 * (xi - 6) == 0).
Proof.
  apply (load_at_query_position_is_included simpson 6 6 6 20
           [(2, -60); (0, 40)] [] [(2, -60)] [(0, 40); (6, 20)] []);
    reflexivity.
Defined.

(** The last sample of the beam of length [6] is at the position [6] of
    the right reaction: there the shear sum has the three terms [-60], [40]
    and [20]. *)
Example sampled_shear_at_last_position :
  exists x_vals shear moment,
    calculate_diagrams simpson 6 [(2, -60)] [] [(0, 40); (6, 20)]
    = Ok (x_vals, shear, moment)
    /\ x_vals !! 999%nat = Some 6
    /\ shear_terms 6 ([(2, -60)] ++ [(0, 40); (6, 20)]) = [-60; 40; 20]
    /\ shear !! 999%nat = Some (py_sum [-60; 40; 20]).
Proof.
  rewrite calculate_diagrams_eq. eexists _, _, _. split; [reflexivity|].
  repeat split; vm_compute; reflexivity.
Qed.

(** ** Extremes *)

Section ArgBest.

(** [arg_best better] scans for the first element that is least for a
    total preorder [le], when [better x best] tells that [x] is strictly
    before [best]. *)
Variable better : Q -> Q -> bool.
Variable le : Q -> Q -> Prop.
Hypothesis le_refl : forall a, le a a.
Hypothesis le_trans : forall a b c, le a b -> le b c -> le a c.
Hypothesis better_true : forall x best, better x best = true -> le x best.
Hypothesis better_false : forall x best, better x best = false -> le best x.

Lemma arg_best_spec (xs : list Q) :
  forall (pre : list Q) (best_i : nat) (best : Q),
    pre !! best_i = Some best ->
    (forall j y, pre !! j = Some y -> le best y) ->
    exists v,
      (pre ++ xs) !! arg_best better best_i best (length pre) xs = Some v
      /\ forall j y, (pre ++ xs) !! j = Some y -> le v y.
Proof.
  induction xs as [|x xs IH]; intros pre best_i best Hbest Hpre.
  - rewrite app_nil_r. cbn [arg_best]. now exists best.
  - cbn [arg_best].
    assert (Hlen : S (length pre) = length (pre ++ [x]))
      by (rewrite length_app; cbn [length]; lia).
    rewrite (cons_middle x pre xs), app_assoc, Hlen.
    destruct (better x best) eqn:Hb.
    + apply IH.
      * rewrite lookup_app_r by lia. now rewrite Nat.sub_diag.
      * intros j y Hj. apply lookup_app_Some in Hj as [Hj|[_ Hj]].
        -- apply le_trans with best; [now apply better_true|now apply (Hpre j)].
        -- destruct (j - length pre)%nat; [|discriminate Hj].
           injection Hj as <-. apply le_refl.
    + apply IH.
      * now apply lookup_app_l_Some.
      * intros j y Hj. apply lookup_app_Some in Hj as [Hj|[_ Hj]].
        -- now apply (Hpre j).
        -- destruct (j - length pre)%nat; [|discriminate Hj].
           injection Hj as <-. now apply better_false.
Qed.

End ArgBest.

Lemma Qlt_bool_true (a b : Q) : Qlt_bool a b = true -> a < b.
Proof.
  unfold Qlt_bool. intros H. apply negb_true_iff in H.
  apply Qnot_le_lt. intros Hle. apply Qle_bool_iff in Hle. congruence.
Qed.

Lemma Qlt_bool_false (a b : Q) : Qlt_bool a b = false -> b <= a.
Proof.
  unfold Qlt_bool. intros H. apply negb_false_iff in H.
  now apply Qle_bool_iff.
Qed.

(** On a sequence that is not empty, [argmin] returns the index of an
    element below all the others, and [argmax] of one above all the
    others. *)
Lemma argmin_spec (xs : list Q) :
  (0 < length xs)%nat ->
  exists k, argmin xs = Ok k /\ (k < length xs)%nat
            /\ forall j, (j < length xs)%nat -> getitem xs k <= getitem xs j.
Proof.
  destruct xs as [|x xs]; [cbn; lia|]. intros _.
  destruct (arg_best_spec Qlt_bool Qle Qle_refl Qle_trans
              (fun a b H => Qlt_le_weak _ _ (Qlt_bool_true a b H))
              Qlt_bool_false xs [x] 0%nat x eq_refl) as (v & Hv & Hmin).
  { intros [|j] y Hj; [|discriminate Hj]. injection Hj as <-. apply Qle_refl. }
  cbn [length app] in Hv, Hmin.
  eexists. split; [reflexivity|]. split.
  - apply lookup_lt_is_Some. eauto.
  - intros j Hj. destruct (lookup_lt_is_Some_2 _ j Hj) as [y Hy].
    unfold getitem. rewrite Hv, Hy. cbn [default]. now apply (Hmin j).
Qed.

Lemma argmax_spec (xs : list Q) :
  (0 < length xs)%nat ->
  exists k, argmax xs = Ok k /\ (k < length xs)%nat
            /\ forall j, (j < length xs)%nat -> getitem xs j <= getitem xs k.
Proof.
  destruct xs as [|x xs]; [cbn; lia|]. intros _.
  destruct (arg_best_spec (fun a b => Qlt_bool b a) (fun a b => b <= a)
              Qle_refl (fun a b c Hab Hbc => Qle_trans _ _ _ Hbc Hab)
              (fun a b H => Qlt_le_weak _ _ (Qlt_bool_true b a H))
              (fun a b H => Qlt_bool_false b a H)
              xs [x] 0%nat x eq_refl) as (v & Hv & Hmax).
  { intros [|j] y Hj; [|discriminate Hj]. injection Hj as <-. apply Qle_refl. }
  cbn [length app] in Hv, Hmax.
  eexists. split; [reflexivity|]. split.
  - apply lookup_lt_is_Some. eauto.
  - intros j Hj. destruct (lookup_lt_is_Some_2 _ j Hj) as [y Hy].
    unfold getitem. rewrite Hv, Hy. cbn [default]. now apply (Hmax j).
Qed.

Lemma ax_plot_same_length (xs ys : list Q) :
  length ys = length xs -> ax_plot xs ys = Ok tt /\ ax_fill_between xs ys = Ok tt.
Proof.
  intros H. unfold ax_plot, ax_fill_between. now rewrite H, Nat.eqb_refl.
Qed.

(** On sequences as long as the positions, [plot_diagrams] marks the four
    indices that [argmin] and [argmax] return. *)
Lemma plot_diagrams_value (x_vals shear moment : list Q)
    (smin smax mmin mmax : nat) :
  length shear = length x_vals -> length moment = length x_vals ->
  argmin shear = Ok smin -> argmax shear = Ok smax ->
  argmin moment = Ok mmin -> argmax moment = Ok mmax ->
  plot_diagrams x_vals shear moment
  = Ok ([("Min"%string, smin, getitem x_vals smin, getitem shear smin);
         ("Max"%string, smax, getitem x_vals smax, getitem shear smax)],
        [("Min"%string, mmin, getitem x_vals mmin, getitem moment mmin);
         ("Max"%string, mmax, getitem x_vals mmax, getitem moment mmax)]).
Proof.
  intros Hs Hm Esmin Esmax Emmin Emmax. unfold plot_diagrams.
  destruct (ax_plot_same_length x_vals shear Hs) as [-> ->].
  destruct (ax_plot_same_length x_vals moment Hm) as [-> ->].
  cbn [bind]. rewrite Esmin, Esmax. cbn [bind]. now rewrite Emmin, Emmax.
Qed.

(** C9 (as amended).  The sampler has no sample count to be given: it
    always takes 1000 positions, [numpy.linspace(0, L, 1000)].  It returns
    the positions and the sequences [shear] and [moment], each of length
    1000; the first position is zero, the last is [L] itself, and every
    other position [x_i] is the product of [i] and the step [L / 999] as
    numpy computes it; [shear[i]] and [moment[i]] are the pair that the
    point query returns at [x_i].  The extremes are not returned by the
    sampler: [plot_diagrams] finds in each sequence an index whose value is
    below, and one whose value is above, all the others, and marks it with
    its position and value. *)
Theorem calculate_diagrams_grid_and_extremes
    (quad : (Q -> Q) -> Q -> Q -> Q * Q) (L : Q) (pl : list load)
    (dls : list DistributedLoad) (rs : list load) :
  exists x_vals shear moment,
    calculate_diagrams quad L pl dls rs = Ok (x_vals, shear, moment)
    /\ x_vals = linspace 0 L 1000
    /\ length x_vals = 1000%nat
    /\ length shear = 1000%nat
    /\ length moment = 1000%nat
    /\ getitem x_vals 0 == 0
    /\ getitem x_vals 999 = L
    /\ (forall i, (i < 999)%nat ->
          x_vals !! i
          = Some (if Qeq_bool ((L - 0) / 999) 0
                  then inject_Z (Z.of_nat i) / 999 * (L - 0) + 0
                  else inject_Z (Z.of_nat i) * ((L - 0) / 999) + 0))
    /\ (forall i, (i < 1000)%nat ->
          exists x s m,
            x_vals !! i = Some x /\ shear !! i = Some s /\ moment !! i = Some m
            /\ calculate_internal_forces quad x L pl dls rs = Ok (s, m))
    /\ exists smin smax mmin mmax,
         plot_diagrams x_vals shear moment
         = Ok ([("Min"%string, smin, getitem x_vals smin, getitem shear smin);
                ("Max"%string, smax, getitem x_vals smax, getitem shear smax)],
               [("Min"%string, mmin, getitem x_vals mmin, getitem moment mmin);
                ("Max"%string, mmax, getitem x_vals mmax, getitem moment mmax)])
         /\ (smin < 1000)%nat /\ (smax < 1000)%nat
         /\ (mmin < 1000)%nat /\ (mmax < 1000)%nat
         /\ forall j, (j < 1000)%nat ->
              getitem shear smin <= getitem shear j <= getitem shear smax
              /\ getitem moment mmin <= getitem moment j
                 <= getitem moment mmax.
Proof.
  rewrite calculate_diagrams_eq.
  pose proof (length_linspace 0 L 1000) as Hlen.
  assert (Hfirst : getitem (linspace 0 L 1000) 0 == 0).
  { unfold getitem. rewrite (linspace_inner 0 L 1000 0) by lia.
    cbn [default from_option id Z.of_nat].
    destruct (Qeq_bool _ 0); [|ring].
    field. discriminate. }
  assert (Hlast : getitem (linspace 0 L 1000) 999 = L).
  { unfold getitem.
    pose proof (linspace_last 0 L 1000 ltac:(lia)) as Hl.
    change (1000 - 1)%nat with 999%nat in Hl. now rewrite Hl. }
  assert (Hinner : forall i, (i < 999)%nat ->
            linspace 0 L 1000 !! i
            = Some (if Qeq_bool ((L - 0) / 999) 0
                    then inject_Z (Z.of_nat i) / 999 * (L - 0) + 0
                    else inject_Z (Z.of_nat i) * ((L - 0) / 999) + 0)).
  { intros i Hi. exact (linspace_inner 0 L 1000 i Hi). }
  assert (Hquery : forall i, (i < 1000)%nat ->
            exists x s m,
              linspace 0 L 1000 !! i = Some x
              /\ map (fun x => fst (internal_forces quad x pl dls rs))
                     (linspace 0 L 1000) !! i = Some s
              /\ map (fun x => snd (internal_forces quad x pl dls rs))
                     (linspace 0 L 1000) !! i = Some m
              /\ calculate_internal_forces quad x L pl dls rs = Ok (s, m)).
  { intros i Hi.
    destruct (lookup_lt_is_Some_2 (linspace 0 L 1000) i) as [x Hx];
      [now rewrite Hlen|].
    exists x, (fst (internal_forces quad x pl dls rs)),
      (snd (internal_forces quad x pl dls rs)).
    rewrite !lookup_map, Hx, calculate_internal_forces_eq.
    repeat split. now destruct (internal_forces quad x pl dls rs). }
  remember (linspace 0 L 1000) as xs eqn:Exs.
  set (shear := map (fun x => fst (internal_forces quad x pl dls rs)) xs) in *.
  set (moment := map (fun x => snd (internal_forces quad x pl dls rs)) xs) in *.
  assert (Hs : length shear = 1000%nat) by (unfold shear; now rewrite length_map).
  assert (Hm : length moment = 1000%nat) by (unfold moment; now rewrite length_map).
  exists xs, shear, moment.
  split; [reflexivity|]. split; [reflexivity|]. split; [exact Hlen|].
  split; [exact Hs|]. split; [exact Hm|]. split; [exact Hfirst|].
  split; [exact Hlast|]. split; [exact Hinner|]. split; [exact Hquery|].
  destruct (argmin_spec shear) as (smin & Esmin & Hsmin & Hsmin'); [lia|].
  destruct (argmax_spec shear) as (smax & Esmax & Hsmax & Hsmax'); [lia|].
  destruct (argmin_spec moment) as (mmin & Emmin & Hmmin & Hmmin'); [lia|].
  destruct (argmax_spec moment) as (mmax & Emmax & Hmmax & Hmmax'); [lia|].
  exists smin, smax, mmin, mmax.
  split.
  { apply plot_diagrams_value; try assumption; congruence. }
  rewrite Hs in Hsmin, Hsmax, Hsmin', Hsmax'.
  rewrite Hm in Hmmin, Hmmax, Hmmin', Hmmax'.
  repeat split; auto.
Qed.

Lemma calculate_diagrams_length (quad : (Q -> Q) -> Q -> Q -> Q * Q) (L : Q)
    (pl : list load) (dls : list DistributedLoad) (rs : list load)
    (x_vals shear moment : list Q) :
  calculate_diagrams quad L pl dls rs = Ok (x_vals, shear, moment) ->
  length x_vals = 1000%nat.
Proof.
  rewrite calculate_diagrams_eq. intros Hrun. injection Hrun as <- _ _.
  apply length_linspace.
Qed.

(** C9, refuted as stated: the sampler cannot be given a sample count, and
    its sequences do not have the length [N] for every [N]; asked for 500
    samples, they still have 1000 entries. *)
Lemma calculate_diagrams_fixed_sample_count :
  ~ (forall N : nat,
        exists x_vals shear moment,
          calculate_diagrams simpson 6 [(2, -60)] [] [(0, 40); (6, 20)]
          = Ok (x_vals, shear, moment)
          /\ length x_vals = N /\ length shear = N /\ length moment = N).
Proof.
  intros H. destruct (H 500%nat) as (x_vals & shear & moment & Hrun & Hlen & _).
  rewrite (calculate_diagrams_length _ _ _ _ _ _ _ _ Hrun) in Hlen.
  discriminate Hlen.
Qed.

(** ** Further properties of the internal forces *)

Lemma py_max_bounds (a b : Q) : a <= py_max a b /\ b <= py_max a b.
Proof.
  unfold py_max. destruct (Qlt_bool a b) eqn:E.
  - apply Qlt_bool_true in E. lra.
  - apply Qlt_bool_false in E. lra.
Qed.

Lemma py_min_bounds (a b : Q) : py_min a b <= a /\ py_min a b <= b.
Proof.
  unfold py_min. destruct (Qlt_bool b a) eqn:E.
  - apply Qlt_bool_true in E. lra.
  - apply Qlt_bool_false in E. lra.
Qed.

Lemma Qle_bool_false (a b : Q) : b < a -> Qle_bool a b = false.
Proof.
  intros Hlt. destruct (Qle_bool a b) eqn:E; [|reflexivity].
  apply Qle_bool_iff in E. lra.
Qed.

Lemma Qlt_bool_of_lt (a b : Q) : a < b -> Qlt_bool a b = true.
Proof. intros Hlt. unfold Qlt_bool. now rewrite Qle_bool_false. Qed.

Lemma Qlt_bool_of_le (a b : Q) : b <= a -> Qlt_bool a b = false.
Proof.
  intros Hle. unfold Qlt_bool. apply Qle_bool_iff in Hle. now rewrite Hle.
Qed.

Section Exclusion.

Variable quad : (Q -> Q) -> Q -> Q -> Q * Q.

Lemma point_sums_remove_after (x p F : Q) (pre post : list load) :
  x < p -> point_sums x (pre ++ (p, F) :: post) = point_sums x (pre ++ post).
Proof.
  intros Hlt. unfold point_sums.
  rewrite !List.filter_app. cbn [List.filter].
  now rewrite (Qle_bool_false p x Hlt).
Qed.

Lemma dist_step_skipped (x : Q) (dl : DistributedLoad) (acc : Q * Q) :
  skipped x dl -> dist_step quad x acc dl = acc.
Proof.
  intros Hskip. destruct acc as [s m]. unfold dist_step.
  destruct (Qle_bool (start dl) x) eqn:Hstart; [|reflexivity].
  apply Qle_bool_iff in Hstart. cbv zeta.
  destruct (Qlt_bool (py_max (start dl) 0) (py_min (end_ dl) x)) eqn:Hab;
    [|reflexivity].
  apply Qlt_bool_true in Hab.
  pose proof (py_max_bounds (start dl) 0) as [Ha1 Ha2].
  pose proof (py_min_bounds (end_ dl) x) as [Hb1 Hb2].
  unfold skipped in Hskip. lra.
Qed.

Lemma internal_forces_remove_after (x p F : Q)
    (pre post pl rs pl' rs' : list load) (dls : list DistributedLoad) :
  x < p ->
  pl ++ rs = pre ++ (p, F) :: post ->
  pl' ++ rs' = pre ++ post ->
  internal_forces quad x pl dls rs = internal_forces quad x pl' dls rs'.
Proof.
  intros Hlt Hwith Hwithout. unfold internal_forces.
  now rewrite Hwith, Hwithout, point_sums_remove_after.
Qed.

Lemma internal_forces_remove_skipped (x : Q) (pl rs : list load)
    (dls1 dls2 : list DistributedLoad) (dl : DistributedLoad) :
  skipped x dl ->
  internal_forces quad x pl (dls1 ++ dl :: dls2) rs
  = internal_forces quad x pl (dls1 ++ dls2) rs.
Proof.
  intros Hskip. unfold internal_forces.
  rewrite !fold_left_app. cbn [fold_left].
  now rewrite dist_step_skipped.
Qed.

End Exclusion.

(** X1.  A point load or reaction [(p, F)] located strictly after the query
    position, [x < p], is not counted: the point query at [x] returns the
    same pair as without the entry, and so do the sampler's slots at every
    grid position before [p]. *)
Theorem load_after_query_position_is_excluded
    (quad : (Q -> Q) -> Q -> Q -> Q * Q) (x L p F : Q)
    (pre post pl rs pl' rs' : list load) (dls : list DistributedLoad) :
  x < p ->
  pl ++ rs = pre ++ (p, F) :: post ->
  pl' ++ rs' = pre ++ post ->
  calculate_internal_forces quad x L pl dls rs
  = calculate_internal_forces quad x L pl' dls rs'
  /\ exists x_vals shear moment shear' moment',
       calculate_diagrams quad L pl dls rs = Ok (x_vals, shear, moment)
       /\ calculate_diagrams quad L pl' dls rs' = Ok (x_vals, shear', moment')
       /\ forall i xi, x_vals !! i = Some xi -> xi < p ->
            shear !! i = shear' !! i /\ moment !! i = moment' !! i.
Proof.
  intros Hlt Hwith Hwithout. split.
  - rewrite !calculate_internal_forces_eq.
    now rewrite (internal_forces_remove_after quad x p F pre post pl rs pl' rs').
  - rewrite !calculate_diagrams_eq. eexists _, _, _, _, _.
    split; [reflexivity|]. split; [reflexivity|].
    intros i xi Hi Hxi. rewrite !lookup_map, Hi. cbn [fmap option_fmap option_map].
    now rewrite (internal_forces_remove_after quad xi p F pre post pl rs pl' rs').
Qed.

Lemma load_after_query_position_is_excluded_witness :
  calculate_internal_forces simpson 1 6 [(2, -60)] [] [(0, 40); (6, 20)]
  = calculate_internal_forces simpson 1 6 [] [] [(0, 40); (6, 20)]
  /\ exists x_vals shear moment shear' moment',
       calculate_diagrams simpson 6 [(2, -60)] [] [(0, 40); (6, 20)]
       = Ok (x_vals, shear, moment)
       /\ calculate_diagrams simpson 6 [] [] [(0, 40); (6, 20)]
          = Ok (x_vals, shear', moment')
       /\ forall i xi, x_vals !! i = Some xi -> xi < 2 ->
            shear !! i = shear' !! i /\ moment !! i = moment' !! i.
Proof.
  apply (load_after_query_position_is_excluded simpson 1 6 2 (-60)
           [] [(0, 40); (6, 20)] [(2, -60)] [(0, 40); (6, 20)]
           [] [(0, 40); (6, 20)] []); reflexivity.
Defined.

(** X2.  A distributed load adds nothing at a position [x] before its
    start or at or before the origin, and nothing anywhere when its
    interval is empty or reversed or ends at or before the origin: the point
    query and the sampler's slots at such positions are the same as without
    the load. *)
Theorem skipped_distributed_load_adds_nothing
    (quad : (Q -> Q) -> Q -> Q -> Q * Q) (x L : Q) (pl rs : list load)
    (dls1 dls2 : list DistributedLoad) (dl : DistributedLoad) :
  skipped x dl ->
  calculate_internal_forces quad x L pl (dls1 ++ dl :: dls2) rs
  = calculate_internal_forces quad x L pl (dls1 ++ dls2) rs
  /\ exists x_vals shear moment shear' moment',
       calculate_diagrams quad L pl (dls1 ++ dl :: dls2) rs
       = Ok (x_vals, shear, moment)
       /\ calculate_diagrams quad L pl (dls1 ++ dls2) rs
          = Ok (x_vals, shear', moment')
       /\ forall i xi, x_vals !! i = Some xi -> skipped xi dl ->
            shear !! i = shear' !! i /\ moment !! i = moment' !! i.
Proof.
  intros Hskip. split.
  - rewrite !calculate_internal_forces_eq.
    now rewrite internal_forces_remove_skipped.
  - rewrite !calculate_diagrams_eq. eexists _, _, _, _, _.
    split; [reflexivity|]. split; [reflexivity|].
    intros i xi Hi Hxi. rewrite !lookup_map, Hi. cbn [fmap option_fmap option_map].
    now rewrite internal_forces_remove_skipped.
Qed.

Lemma skipped_distributed_load_adds_nothing_witness :
  let dl := mkDistributedLoad "100" (fun _ => 100) 3 1 (-200) 2 in
  calculate_internal_forces simpson 5 6 [(2, -60)] ([] ++ dl :: []) []
  = calculate_internal_forces simpson 5 6 [(2, -60)] ([] ++ []) []
  /\ exists x_vals shear moment shear' moment',
       calculate_diagrams simpson 6 [(2, -60)] ([] ++ dl :: []) []
       = Ok (x_vals, shear, moment)
       /\ calculate_diagrams simpson 6 [(2, -60)] ([] ++ []) []
          = Ok (x_vals, shear', moment')
       /\ forall i xi, x_vals !! i = Some xi -> skipped xi dl ->
            shear !! i = shear' !! i /\ moment !! i = moment' !! i.
Proof.
  intros dl.
  apply (skipped_distributed_load_adds_nothing simpson 5 6 [(2, -60)] []
           [] [] dl).
  unfold skipped, dl. cbn [start end_]. right. right. left.
  unfold Qle. cbn. lia.
Defined.

Lemma filter_between (x x' : Q) (loads : list load) :
  x <= x' ->
  Forall (fun l : load => fst l <= x \/ x' < fst l) loads ->
  List.filter (fun '(xf, F) => Qle_bool xf x') loads
  = List.filter (fun '(xf, F) => Qle_bool xf x) loads.
Proof.
  intros Hxx'. induction 1 as [|[p F] loads Hp _ IH]; [reflexivity|].
  cbn [List.filter fst] in *. rewrite IH.
  destruct Hp as [Hp|Hp].
  - assert (H1 : Qle_bool p x = true) by (apply Qle_bool_iff; lra).
    assert (H2 : Qle_bool p x' = true) by (apply Qle_bool_iff; lra).
    now rewrite H1, H2.
  - rewrite (Qle_bool_false p x') by lra.
    now rewrite (Qle_bool_false p x) by lra.
Qed.

(** X4.  Between two consecutive load positions the shear diagram of a
    beam under point loads is flat: when no point load or reaction lies in
    [(x, x']], the shear sums at [x] and at [x'] have the same terms, and the
    point query returns the same shear at both positions. *)
Theorem shear_is_constant_between_loads
    (quad : (Q -> Q) -> Q -> Q -> Q * Q) (x x' L : Q) (pl rs : list load) :
  x <= x' ->
  Forall (fun l : load => fst l <= x \/ x' < fst l) (pl ++ rs) ->
  shear_terms x' (pl ++ rs) = shear_terms x (pl ++ rs)
  /\ exists m m',
       calculate_internal_forces quad x L pl [] rs
       = Ok (py_sum (shear_terms x (pl ++ rs)), m)
       /\ calculate_internal_forces quad x' L pl [] rs
          = Ok (py_sum (shear_terms x (pl ++ rs)), m').
Proof.
  intros Hxx' Hfree.
  assert (Hterms : shear_terms x' (pl ++ rs) = shear_terms x (pl ++ rs)).
  { unfold shear_terms. now rewrite (filter_between x x' (pl ++ rs)). }
  split; [exact Hterms|].
  rewrite !calculate_internal_forces_eq, !internal_forces_terms.
  cbn [fold_left]. rewrite Hterms. eexists _, _. split; reflexivity.
Qed.

Lemma shear_is_constant_between_loads_witness :
  shear_terms 5 ([(2, -60)] ++ [(0, 40); (6, 20)])
  = shear_terms 3 ([(2, -60)] ++ [(0, 40); (6, 20)])
  /\ exists m m',
       calculate_internal_forces simpson 3 6 [(2, -60)] [] [(0, 40); (6, 20)]
       = Ok (py_sum (shear_terms 3 ([(2, -60)] ++ [(0, 40); (6, 20)])), m)
       /\ calculate_internal_forces simpson 5 6 [(2, -60)] [] [(0, 40); (6, 20)]
          = Ok (py_sum (shear_terms 3 ([(2, -60)] ++ [(0, 40); (6, 20)])), m').
Proof.
  apply (shear_is_constant_between_loads simpson 3 5 6
           [(2, -60)] [(0, 40); (6, 20)]).
  - unfold Qle. cbn. lia.
  - repeat constructor; cbn [fst]; unfold Qle, Qlt; cbn; lia.
Defined.

(** ** The left end of the diagrams *)

Section LeftEnd.

Variable quad : (Q -> Q) -> Q -> Q -> Q * Q.

Lemma fold_dist_step_origin (x : Q) (dls : list DistributedLoad) (acc : Q * Q) :
  x <= 0 -> fold_left (dist_step quad x) dls acc = acc.
Proof.
  intros Hx. revert acc. induction dls as [|dl dls IH]; intros acc.
  - reflexivity.
  - cbn [fold_left]. rewrite dist_step_skipped; [apply IH|].
    right. now left.
Qed.

Lemma moment_terms_origin (x : Q) (loads : list load) :
  x == 0 ->
  Forall (fun l : load => 0 <= fst l) loads ->
  Forall (fun t => t == 0) (moment_terms x loads).
Proof.
  intros Hx. unfold moment_terms.
  induction 1 as [|[p F] loads Hp _ IH]; [constructor|].
  cbn [List.filter fst] in *.
  destruct (Qle_bool p x) eqn:E; [|exact IH].
  apply Qle_bool_iff in E. cbn [map]. constructor; [|exact IH].
  assert (Hz : x - p == 0) by lra. rewrite Hz. ring.
Qed.

Lemma shear_terms_origin (x : Q) (loads : list load) :
  x == 0 ->
  Forall (fun l : load => 0 <= fst l) loads ->
  shear_terms x loads
  = map snd (List.filter (fun l : load => Qeq_bool (fst l) 0) loads).
Proof.
  intros Hx. unfold shear_terms.
  induction 1 as [|[p F] loads Hp _ IH]; [reflexivity|].
  cbn [List.filter fst] in *.
  assert (E : Qle_bool p x = Qeq_bool p 0).
  { destruct (Qeq_bool p 0) eqn:E0.
    - apply Qeq_bool_eq in E0. apply Qle_bool_iff. lra.
    - apply Qeq_bool_neq in E0. apply Qle_bool_false. lra. }
  rewrite E. destruct (Qeq_bool p 0); cbn [map snd]; now rewrite IH.
Qed.

End LeftEnd.

(** X6.  The diagrams at the left end.  When no point load or reaction
    lies before the origin, the point query at a position [x == 0] returns
    as shear the sum of the magnitudes of the loads located at the origin,
    in their order, and a moment that is zero, whatever the distributed
    loads; and the first sample of the moment diagram is zero. *)
Theorem diagrams_at_origin
    (quad : (Q -> Q) -> Q -> Q -> Q * Q) (x L : Q) (pl rs : list load)
    (dls : list DistributedLoad) :
  x == 0 ->
  Forall (fun l : load => 0 <= fst l) (pl ++ rs) ->
  (exists m,
      calculate_internal_forces quad x L pl dls rs
      = Ok (py_sum (map snd (List.filter (fun l : load => Qeq_bool (fst l) 0)
                                          (pl ++ rs))), m)
      /\ m == 0)
  /\ exists x_vals shear moment,
       calculate_diagrams quad L pl dls rs = Ok (x_vals, shear, moment)
       /\ length moment = 1000%nat
       /\ shear !! 0%nat
          = Some (py_sum (map snd (List.filter
                                     (fun l : load => Qeq_bool (fst l) 0)
                                     (pl ++ rs))))
       /\ getitem moment 0 == 0.
Proof.
  intros Hx Hpos.
  assert (Hat : forall y, y == 0 ->
            internal_forces quad y pl dls rs
            = (py_sum (map snd (List.filter (fun l : load => Qeq_bool (fst l) 0)
                                             (pl ++ rs))),
               py_sum (moment_terms y (pl ++ rs)))
            /\ py_sum (moment_terms y (pl ++ rs)) == 0).
  { intros y Hy. rewrite internal_forces_terms.
    rewrite fold_dist_step_origin by lra.
    rewrite (shear_terms_origin y (pl ++ rs) Hy Hpos).
    split; [reflexivity|].
    apply py_sum_zeros. now apply moment_terms_origin. }
  split.
  - destruct (Hat x Hx) as [E Hz].
    rewrite calculate_internal_forces_eq, E. eexists. split; [reflexivity|exact Hz].
  - rewrite calculate_diagrams_eq. eexists _, _, _. split; [reflexivity|].
    split; [now rewrite length_map, length_linspace|].
    assert (Hx0 : exists x0, linspace 0 L 1000 !! 0%nat = Some x0 /\ x0 == 0).
    { eexists. split; [exact (linspace_inner 0 L 1000 0 ltac:(lia))|].
      cbn [Z.of_nat]. destruct (Qeq_bool _ 0); [|ring]. field. discriminate. }
    destruct Hx0 as (x0 & Hx0 & Hz0).
    destruct (Hat x0 Hz0) as [E Hz].
    unfold getitem. rewrite !lookup_map, Hx0.
    cbn [fmap option_fmap option_map default from_option id].
    rewrite E. cbn [fst snd]. split; [reflexivity|exact Hz].
Qed.

Lemma diagrams_at_origin_witness :
  (exists m,
      calculate_internal_forces simpson 0 6 [(2, -60)] [] [(0, 40); (6, 20)]
      = Ok (py_sum (map snd (List.filter (fun l : load => Qeq_bool (fst l) 0)
                               ([(2, -60)] ++ [(0, 40); (6, 20)]))), m)
      /\ m == 0)
  /\ exists x_vals shear moment,
       calculate_diagrams simpson 6 [(2, -60)] [] [(0, 40); (6, 20)]
       = Ok (x_vals, shear, moment)
       /\ length moment = 1000%nat
       /\ shear !! 0%nat
          = Some (py_sum (map snd (List.filter
                                     (fun l : load => Qeq_bool (fst l) 0)
                                     ([(2, -60)] ++ [(0, 40); (6, 20)]))))
       /\ getitem moment 0 == 0.
Proof.
  apply (diagrams_at_origin simpson 0 6 [(2, -60)] [(0, 40); (6, 20)] []).
  - reflexivity.
  - repeat constructor; cbn [fst]; unfold Qle; cbn; lia.
Defined.

(** ** Further properties of the extremes and of the grid *)

Section ArgFirst.

Variable better : Q -> Q -> bool.
Variable le lt : Q -> Q -> Prop.
Hypothesis le_refl : forall a, le a a.
Hypothesis lt_le : forall a b, lt a b -> le a b.
Hypothesis lt_le_trans : forall a b c, lt a b -> le b c -> lt a c.
Hypothesis better_true : forall x best, better x best = true -> lt x best.
Hypothesis better_false : forall x best, better x best = false -> le best x.


End ArgFirst.


Lemma plot_diagrams_ok (x_vals shear moment : list Q) :
  length shear = length x_vals -> length moment = length x_vals ->
  (0 < length x_vals)%nat ->
  exists r, plot_diagrams x_vals shear moment = Ok r.
Proof.
  intros Hs Hm Hx.
  destruct (argmin_spec shear) as (smin & Esmin & _); [lia|].
  destruct (argmax_spec shear) as (smax & Esmax & _); [lia|].
  destruct (argmin_spec moment) as (mmin & Emmin & _); [lia|].
  destruct (argmax_spec moment) as (mmax & Emmax & _); [lia|].
  eexists. now apply (plot_diagrams_value x_vals shear moment smin smax mmin mmax).
Qed.



(** X11.  [plot_diagrams] completes exactly when [shear] and [moment] are
    as long as [x_vals] and not empty.  When one of them differs in length
    from [x_vals], the curve is refused and the error is [ValueError]. *)
Theorem plot_diagrams_outcome (x_vals shear moment : list Q) :
  ((exists r, plot_diagrams x_vals shear moment = Ok r)
   <-> length shear = length x_vals /\ length moment = length x_vals
       /\ (0 < length x_vals)%nat)
  /\ (length shear <> length x_vals \/ length moment <> length x_vals ->
      plot_diagrams x_vals shear moment = Raise ValueError).
Proof.
  assert (Hbad1 : length shear <> length x_vals ->
                  plot_diagrams x_vals shear moment = Raise ValueError).
  { intros Hne. unfold plot_diagrams, ax_plot.
    destruct (Nat.eqb_spec (length x_vals) (length shear)) as [E|_];
      [now symmetry in E|reflexivity]. }
  assert (Hempty : length shear = length x_vals -> length x_vals = 0%nat ->
                   plot_diagrams x_vals shear moment = Raise ValueError).
  { intros Hs H0. unfold plot_diagrams.
    destruct (ax_plot_same_length x_vals shear Hs) as [-> ->]. cbn [bind].
    destruct shear; [reflexivity|]. cbn [length] in Hs. lia. }
  assert (Hbad2 : length shear = length x_vals -> (0 < length x_vals)%nat ->
                  length moment <> length x_vals ->
                  plot_diagrams x_vals shear moment = Raise ValueError).
  { intros Hs Hx Hne. unfold plot_diagrams.
    destruct (ax_plot_same_length x_vals shear Hs) as [-> ->]. cbn [bind].
    destruct (argmin_spec shear) as (smin & -> & _); [lia|].
    destruct (argmax_spec shear) as (smax & -> & _); [lia|].
    cbn [bind]. unfold ax_plot.
    destruct (Nat.eqb_spec (length x_vals) (length moment)) as [E|_];
      [now symmetry in E|reflexivity]. }
  split.
  - split.
    + intros [r Hr].
      destruct (Nat.eq_dec (length shear) (length x_vals)) as [Hs|Hs];
        [|rewrite (Hbad1 Hs) in Hr; discriminate Hr].
      destruct (Nat.eq_dec (length x_vals) 0%nat) as [H0|H0];
        [rewrite (Hempty Hs H0) in Hr; discriminate Hr|].
      destruct (Nat.eq_dec (length moment) (length x_vals)) as [Hm|Hm];
        [|rewrite (Hbad2 Hs ltac:(lia) Hm) in Hr; discriminate Hr].
      repeat split; [assumption..|lia].
    + intros (Hs & Hm & Hx). now apply plot_diagrams_ok.
  - intros [Hne|Hne]; [now apply Hbad1|].
    destruct (Nat.eq_dec (length shear) (length x_vals)) as [Hs|Hs];
      [|now apply Hbad1].
    destruct (Nat.eq_dec (length x_vals) 0%nat) as [H0|H0];
      [now apply Hempty|].
    apply Hbad2; [assumption|lia|assumption].
Qed.

Lemma plot_diagrams_outcome_witness :
  plot_diagrams [0; 1] [5] [2; 3] = Raise ValueError.
Proof.
  apply (plot_diagrams_outcome [0; 1] [5] [2; 3]). left. cbn [length]. lia.
Defined.





(** ** The whole run *)

Section MainOutcome.

Variable quad : (Q -> Q) -> Q -> Q -> Q * Q.
Variable py_eval : string -> Q -> Q.



End MainOutcome.


(** The run of scenario 3 of the beam of length [6], with a query at the
    load position. *)
Example main_scenario :
  match main simpson eval_demo (mkInput 6 [(2, -60)] [] [0; 6] "yes" 2) with
  | Ok out =>
      out_reactions out = [(0, 240 # 6); (6, 120 # 6)]
      /\ out_internal out = Some (-120 # 6, 480 # 6)
      /\ title (out_beam out) = "Beam Loading Diagram (With Reactions)"%string
  | Raise _ => False
  end.
Proof. vm_compute. repeat split. Qed.

(** ** The beam drawing *)

Lemma Forall_flat_map {A B : Type} (P : B -> Prop) (f : A -> list B)
    (Q0 : A -> Prop) (l : list A) :
  (forall a, Q0 a -> Forall P (f a)) ->
  Forall Q0 l -> Forall P (flat_map f l).
Proof.
  intros Hf. induction 1 as [|a l Ha _ IH]; cbn [flat_map].
  - constructor.
  - apply Forall_app. split; [now apply Hf|exact IH].
Qed.

(** X14.  On a beam of length [L > 0], every arrow that [plot_beam] draws
    for a load located on the beam, head included, and the anchor of its
    force label lie within the axis limits that [plot_beam] sets, whatever
    the magnitude of the load. *)
Theorem plot_beam_arrows_in_view (L : Q) (point_loads : list load)
    (dist_loads : list DistributedLoad) (supports : list Q)
    (show_reactions : bool) :
  0 < L ->
  Forall (fun l : load => 0 <= fst l /\ fst l <= L) point_loads ->
  Forall (in_view (plot_beam L point_loads dist_loads supports show_reactions))
         (artists (plot_beam L point_loads dist_loads supports show_reactions)).
Proof.
  intros HL Hpl. unfold plot_beam. cbv zeta. cbn [artists].
  repeat (apply Forall_app; split).
  - repeat constructor.
  - induction supports as [|x supports IH]; cbn [map]; constructor;
      [exact I|exact IH].
  - eapply Forall_flat_map; [|exact Hpl].
    intros [x F] [Hx0 HxL]. cbn [fst] in Hx0, HxL.
    unfold in_view. cbn [xlim ylim fst snd]. cbv beta iota zeta.
    destruct (Qlt_bool 0 F);
      (apply List.Forall_cons; [|apply List.Forall_cons; [|apply List.Forall_nil]]);
      cbv beta iota; const_div; repeat split; lra.
  - apply Forall_flat_map with (Q0 := fun _ => True).
    + intros dl _. repeat constructor.
    + induction dist_loads; constructor; [exact I|assumption].
Qed.

Lemma plot_beam_arrows_in_view_witness :
  Forall (in_view (plot_beam 10 [(5, -100); (0, 50); (10, 50)] [] [0; 10] true))
         (artists (plot_beam 10 [(5, -100); (0, 50); (10, 50)] [] [0; 10] true)).
Proof.
  apply (plot_beam_arrows_in_view 10 [(5, -100); (0, 50); (10, 50)] []
           [0; 10] true).
  - reflexivity.
  - repeat constructor; cbn [fst]; unfold Qle; cbn; lia.
Defined.

Lemma fold_py_max_spec (ys : list Q) :
  forall y0 : Q,
    In (fold_left py_max ys y0) (y0 :: ys)
    /\ Forall (fun y => y <= fold_left py_max ys y0) (y0 :: ys).
Proof.
  induction ys as [|y ys IH]; intros y0.
  - cbn [fold_left]. split; [now left|]. repeat constructor. apply Qle_refl.
  - cbn [fold_left].
    destruct (IH (py_max y0 y)) as [Hin Hall].
    pose proof (py_max_bounds y0 y) as [Hb1 Hb2].
    inversion Hall as [|? ? Hhead Htail]; subst.
    split.
    + destruct Hin as [Hin|Hin]; [|now right; right].
      rewrite <- Hin. unfold py_max.
      destruct (Qlt_bool y0 y); [right; now left|now left].
    + constructor; [lra|]. constructor; [lra|exact Htail].
Qed.

(** X15.  For every distributed load, [plot_beam] puts the load's label
    above the midpoint of its interval, [L / 20] above the largest of the
    intensities sampled at the 100 positions of the drawn curve; the
    fallback height [0] for an empty curve is never used. *)
Theorem plot_beam_load_label (L : Q) (point_loads : list load)
    (dist_loads : list DistributedLoad) (supports : list Q)
    (show_reactions : bool) (dl : DistributedLoad) :
  In dl dist_loads ->
  exists max_y,
    In (Text ((start dl + end_ dl) / 2) (max_y + L / 20)
             (LoadLabel (func_str dl) (total_force dl))
             "darkgreen" "center" None)
       (artists (plot_beam L point_loads dist_loads supports show_reactions))
    /\ In max_y (map (fun xi => func dl xi) (linspace (start dl) (end_ dl) 100))
    /\ length (linspace (start dl) (end_ dl) 100) = 100%nat
    /\ Forall (fun y => y <= max_y)
              (map (fun xi => func dl xi) (linspace (start dl) (end_ dl) 100)).
Proof.
  intros Hdl.
  pose proof (length_linspace (start dl) (end_ dl) 100) as Hlen.
  exists (max_or_zero (map (fun xi => func dl xi)
                         (linspace (start dl) (end_ dl) 100))).
  split.
  - unfold plot_beam. cbv zeta. cbn [artists].
    rewrite !in_app_iff. right. right. right.
    apply in_flat_map. exists dl. split; [exact Hdl|].
    right. right. now left.
  - destruct (linspace (start dl) (end_ dl) 100) as [|x0 xs];
      [discriminate Hlen|].
    cbn [map max_or_zero].
    destruct (fold_py_max_spec (map (fun xi => func dl xi) xs) (func dl x0))
      as [Hin Hall].
    split; [exact Hin|]. split; [exact Hlen|exact Hall].
Qed.

Lemma plot_beam_load_label_witness :
  let dl := mkDistributedLoad "50*x" (fun x => 50 * x) 0 4 400 (8 # 3) in
  exists max_y,
    In (Text ((start dl + end_ dl) / 2) (max_y + 10 / 20)
             (LoadLabel (func_str dl) (total_force dl))
             "darkgreen" "center" None)
       (artists (plot_beam 10 [] [dl] [0; 10] false))
    /\ In max_y (map (fun xi => func dl xi) (linspace (start dl) (end_ dl) 100))
    /\ length (linspace (start dl) (end_ dl) 100) = 100%nat
    /\ Forall (fun y => y <= max_y)
              (map (fun xi => func dl xi) (linspace (start dl) (end_ dl) 100)).
Proof.
  intros dl.
  apply (plot_beam_load_label 10 [] [dl] [0; 10] false dl). now left.
Defined.
